(** * Poco::JSON::Object — a shallow embedding of [JSON/include/Poco/JSON/Object.h]

    The header defines the JSON property bag ([Object]), its inline
    accessors, the serialisation template [doStringify], and the
    specialisation [VarHolderImpl<JSON::Object::Ptr>] that lets a
    [Dynamic::Var] hold an object handle.  A definition that follows a
    member of the header carries its name and its lines in the header; what
    the header only declares or includes is marked as modelled. *)

From Stdlib Require Import ZArith Lia Ascii DecimalString.
From stdpp Require Import base option list gmap strings sorting.

(** ** Exceptions and outcomes

    A C++ call either returns or throws.  Only the exception classes the
    header names (and the one a null [SharedPtr] raises) are needed;
    [InvalidAccess] stands for a read through a pointer to an erased map
    node, which C++ leaves undefined: the model stops there. *)

Inductive exn :=
| BadCastException
| NotImplementedException (msg : string)
| NullPointerException
| InvalidAccess.

Inductive outcome (A : Type) :=
| Return (a : A)
| Throw (e : exn).
Arguments Return {A} a.
Arguments Throw {A} e.

Global Instance outcome_ret : MRet outcome := λ A a, Return a.

Global Instance outcome_bind : MBind outcome := λ A B k m,
  match m with
  | Return a => k a
  | Throw e => Throw e
  end.

(** [try { body } catch (...) { handler }]: whatever the body throws is
    dropped and control continues with the handler. *)
Definition try_catch_all {A} (body handler : outcome A) : outcome A :=
  match body with
  | Return a => Return a
  | Throw _ => handler
  end.

Definition returns {A} (m : outcome A) : bool :=
  match m with Return _ => true | Throw _ => false end.

(** ** Dynamic::Var *)

(** Addresses: of map nodes (what a [Dynamic::Var*] points at) and of
    heap objects (what a handle refers to). *)
Definition addr := positive.

(** Modelled from the spec: [Dynamic::Var] ([Poco/Dynamic/Var.h] is not part
    of the header): "a closed-world tagged union capable of holding a
    primitive, a string, or a handle to an Object/Array; exposes [type()],
    [isEmpty()], [convert<T>()]".  [VEmpty] is the explicitly-empty value. *)
Inductive Var :=
| VEmpty
| VBool (b : bool)
| VInt (z : Z)
| VString (s : string)
| VArray (h : addr)
| VObject (h : addr).

Inductive type_info :=
| ti_void | ti_bool | ti_int | ti_string | ti_Array_Ptr | ti_Object_Ptr.

Global Instance type_info_eq_dec : EqDecision type_info.
Proof. solve_decision. Defined.

Definition Var_type (v : Var) : type_info :=
  match v with
  | VEmpty => ti_void
  | VBool _ => ti_bool
  | VInt _ => ti_int
  | VString _ => ti_string
  | VArray _ => ti_Array_Ptr
  | VObject _ => ti_Object_Ptr
  end.

Definition isEmpty (v : Var) : bool :=
  match v with VEmpty => true | _ => false end.

(** ** Object (lines 59-196)

    [_values] is a [std::map<std::string, Dynamic::Var>]; each entry lives
    in a map node, and [_keys] is a deque of pointers to the [Var] of such
    nodes, so a node carries the address of its value. *)

Record node := Node { node_addr : addr; second : Var }.

Record Object := mkObject {
  _values : gmap string node;
  _keys : list addr;
  _preserveInsOrder : bool
}.

(** Lines 199-203. *)
Definition has (o : Object) (key : string) : bool :=
  match _values o !! key with
  | Some _ => true
  | None => false
  end.

(** Lines 206-210. *)
Definition isArray (o : Object) (key : string) : bool :=
  match _values o !! key with
  | Some it => bool_decide (Var_type (second it) = ti_Array_Ptr)
  | None => false
  end.

(** Lines 213-217. *)
Definition isNull (o : Object) (key : string) : bool :=
  match _values o !! key with
  | None => true
  | Some it => isEmpty (second it)
  end.

(** Lines 220-224. *)
Definition isObject (o : Object) (key : string) : bool :=
  match _values o !! key with
  | Some it => bool_decide (Var_type (second it) = ti_Object_Ptr)
  | None => false
  end.

(** Lines 227-230. *)
Definition Object_size (o : Object) : nat := size (_values o).

(** Lines 233-236: only the value store is touched. *)
Definition remove (o : Object) (key : string) : Object :=
  {| _values := delete key (_values o);
     _keys := _keys o;
     _preserveInsOrder := _preserveInsOrder o |}.

(** Lines 117-137.  [convert] stands for [Var::convert<T>], which lives in
    [Poco/Dynamic/Var.h]. *)
Section OptValue.
Context {T : Type} (convert : Var → outcome T).

Definition optValue (o : Object) (key : string) (def : T) : outcome T :=
  let value := def in
  match _values o !! key with
  | Some it =>
      if negb (isEmpty (second it))
      then try_catch_all (x ← convert (second it); mret x) (mret value)
      else mret value
  | None => mret value
  end.
End OptValue.

(** *** References held by [_keys]

    [entries_at o p] are the live entries of the value store whose value sits
    at address [p]; a reference is live when there is exactly one. *)
Definition entries_at (o : Object) (p : addr) : list (string * node) :=
  filter (λ e, node_addr e.2 = p) (map_to_list (_values o)).

Definition live (o : Object) (p : addr) : Prop := length (entries_at o p) = 1%nat.

Global Instance live_dec o p : Decision (live o p).
Proof. unfold live. apply _. Defined.

Definition keys_valid (o : Object) : Prop := Forall (live o) (_keys o).

Global Instance keys_valid_dec o : Decision (keys_valid o).
Proof. unfold keys_valid. apply _. Defined.

(** Lines 251-254: [**it].  A pointer to no live node has no value to give. *)
Definition getValue_KeyPtr (o : Object) (it : addr) : option Var :=
  match entries_at o it with
  | [e] => Some (second e.2)
  | _ => None
  end.

(** ** Output streams

    A [std::ostream] is written left to right; its state is the text written
    so far and [out << s] appends. *)
Definition ostream := string.

Definition put (out : ostream) (s : string) : ostream := out +:+ s.
Infix "<<" := put (at level 61, left associativity) : stdpp_scope.

Definition endl : string := String "010"%char "".
Definition dquote : string := String "034"%char "".
Definition blank : string := " ".

Fixpoint blanks (n : nat) : string :=
  match n with
  | O => ""
  | S n => String " "%char (blanks n)
  end.

(** [for (int i = 0; i < n; i++) out << ' '], [n] being the unsigned
    [indent]: one blank per round, [n] rounds.  (The counter is an [int], so
    the loop is defined C++ only while [n] does not exceed [INT_MAX].) *)
Fixpoint put_spaces (n : nat) (out : ostream) : ostream :=
  match n with
  | O => out
  | S n => put_spaces n (out << blank)
  end.

Fixpoint occurs (c : ascii) (s : string) : bool :=
  match s with
  | EmptyString => false
  | String a s => bool_decide (a = c) || occurs c s
  end.

(** ** Machine integers of [doStringify]

    [indent] is an [unsigned int] and [step] an [int], both 32 bits wide.
    Mixed expressions are evaluated after converting the [int] operand to
    [unsigned int], i.e. modulo [2^32]. *)
Definition UINT_MODULUS : Z := 2 ^ 32.
Definition INT_MAX : Z := 2 ^ 31 - 1.
Definition INT_MIN : Z := - 2 ^ 31.

Definition to_unsigned (z : Z) : Z := z `mod` UINT_MODULUS.

Definition is_uint (z : Z) : Prop := (0 ≤ z < UINT_MODULUS)%Z.
Definition is_int (z : Z) : Prop := (INT_MIN ≤ z ≤ INT_MAX)%Z.

(** ** doStringify (lines 154-183)

    The template is instantiated at a container type with an iterator type
    [It] and the overloads [getKey]/[getValue] for it; [container] lists
    the iterator positions from [begin()] to [end()].
    [Stringifier_stringify v indent step] is the text that
    [Stringifier::stringify(v, out, indent, step)] appends to [out]; the
    Stringifier belongs to [Poco/JSON/Stringifier.h]. *)
Section DoStringify.
Context {It : Type}.
Variable getKey : It → string.
Variable getValue : It → Var.
Variable Stringifier_stringify : Var → Z → Z → string.

(** One entry, lines 165-174; [last] is [++it == container.end()]. *)
Definition put_entry (it : It) (last : bool) (out : ostream) (indent step : Z) : ostream :=
  let out := put_spaces (Z.to_nat indent) out in
  let out := out << dquote << getKey it << dquote in
  let out := out << (if (0 <? indent)%Z then " : " else ":") in
  let out := out << Stringifier_stringify (getValue it) (to_unsigned (indent + step)) step in
  let out := if last then out else out << "," in
  if (0 <? step)%Z then out << endl else out.

(** The loop of lines 163-175. *)
Fixpoint put_entries (its : list It) (out : ostream) (indent step : Z) : ostream :=
  match its with
  | [] => out
  | it :: rest =>
      put_entries rest (put_entry it (bool_decide (rest = [])) out indent step) indent step
  end.

(** The indentation left for the closing brace, line 177. *)
Definition closing_indent (indent step : Z) : Z :=
  if (to_unsigned step <=? indent)%Z then to_unsigned (indent - step) else indent.

Definition doStringify (container : list It) (out : ostream) (indent step : Z) : ostream :=
  let out := out << "{" in
  let out := if (0 <? indent)%Z then out << endl else out in
  let out := put_entries container out indent step in
  let indent := closing_indent indent step in
  let out := put_spaces (Z.to_nat indent) out in
  out << "}".

(** The spec's single-line form, "compact [:] separator", entries
    "separated by [,]", written out: the text of one entry ... *)
Definition compact_entry (step : Z) (it : It) : string :=
  dquote +:+ getKey it +:+ dquote +:+ ":" +:+
  Stringifier_stringify (getValue it) (to_unsigned step) step.

(** ... and of the whole object: the entries joined by commas between the
    braces. *)
Definition compact_text (container : list It) (step : Z) : string :=
  "{" +:+ String.concat "," (compact_entry step <$> container) +:+ "}".
End DoStringify.

(** The characters JSON object syntax itself contributes on one line. *)
Definition structural (c : ascii) : Prop :=
  c = "{"%char ∨ c = "}"%char ∨ c = "034"%char ∨ c = ":"%char ∨ c = ","%char.

(** The closing indentation in the spec's words: "[indentWidth - step]
    (clamped to not go negative)". *)
Definition clamped_closing_indent (indent step : Z) : Z :=
  Z.max 0 (indent - step).

(** *** The [ValueMap] instance

    A [std::map] is traversed in ascending key order; [std::string]
    compares byte-wise. *)
Definition key_le (a b : string * node) : Prop := String.le a.1 b.1.

Global Instance key_le_dec : RelDecision key_le.
Proof. intros a b. unfold key_le. apply _. Defined.

Definition ValueMap_range (m : gmap string node) : list (string * node) :=
  merge_sort key_le (map_to_list m).

(** Lines 239-242. *)
Definition getKey_ValueMap (it : string * node) : string := it.1.

(** Lines 245-248. *)
Definition getValue_ValueMap (it : string * node) : Var := second it.2.

Definition doStringify_ValueMap (Stringifier_stringify : Var → Z → Z → string)
    (o : Object) (out : ostream) (indent step : Z) : ostream :=
  doStringify getKey_ValueMap getValue_ValueMap Stringifier_stringify
    (ValueMap_range (_values o)) out indent step.

(** Modelled from the spec: the Stringifier for scalar leaf values
    ([Poco/JSON/Stringifier.h] is not part of the header; "dispatches
    serialization for scalar/array/object values").  Only the scalar leaves
    are given text; string escaping is "a given primitive" and is left out,
    and a nested container handle belongs to Array/Object stringification. *)
Definition scalar_stringify (v : Var) (indent step : Z) : string :=
  match v with
  | VEmpty => "null"
  | VBool b => if b then "true" else "false"
  | VInt z => NilZero.string_of_int (Z.to_int z)
  | VString s => dquote +:+ s +:+ dquote
  | VArray _ => ""
  | VObject _ => ""
  end.

Definition is_scalar (v : Var) : bool :=
  match v with
  | VEmpty | VBool _ | VInt _ | VString _ => true
  | VArray _ | VObject _ => false
  end.

(** ** VarHolderImpl<JSON::Object::Ptr> (lines 264-403) *)

(** Modelled from the spec: the shared-ownership handle [Object::Ptr]
    ([Poco/SharedPtr.h] is not part of the header): either null or a
    reference to an object; [->] on a null handle raises. *)
Definition Ptr_isNull (p : option Object) : bool :=
  match p with None => true | Some _ => false end.

Definition Ptr_deref (p : option Object) : outcome Object :=
  match p with
  | Some o => Return o
  | None => Throw NullPointerException
  end.

Record VarHolderImpl := Holder { _val : option Object }.

(** The static type of the reference a [convert] overload receives. *)
Inductive target :=
| Int8 | Int16 | Int32 | Int64
| UInt8 | UInt16 | UInt32 | UInt64
| Bool | Float | Double | Char | StdString
| DateTime | LocalDateTime | Timestamp.

(** What a returning overload has stored in its argument: only the [bool]
    and the [std::string] overloads ever assign. *)
Inductive converted :=
| as_bool (b : bool)
| as_string (s : string).

(** C++ [a && b]: [b] is evaluated only when [a] holds. *)
Definition and_then (a : bool) (b : outcome bool) : outcome bool :=
  if a then b else mret false.

(** The default of [step] in the declaration of [stringify], line 145. *)
Definition default_step : Z := (-1)%Z.

Section Convert.
(** [Object::stringify(out, indent, step)], declared at line 145 with
    [indent = 0] and [step = -1] as defaults; its body is in [Object.cpp].
    It reads the object through [getKey] and [getValue] and may fail to
    return (line 253 dereferences what [_keys] holds). *)
Variable Object_stringify : Object → ostream → Z → Z → outcome ostream.

Definition convert (h : VarHolderImpl) (t : target) : outcome converted :=
  match t with
  | Int8 => Throw BadCastException
  | Int16 => Throw BadCastException
  | Int32 => Throw BadCastException
  | Int64 => Throw BadCastException
  | UInt8 => Throw BadCastException
  | UInt16 => Throw BadCastException
  | UInt32 => Throw BadCastException
  | UInt64 => Throw BadCastException
  | Bool =>
      value ← and_then (negb (Ptr_isNull (_val h)))
                (o ← Ptr_deref (_val h); mret (bool_decide (0 < Object_size o)));
      mret (as_bool value)
  | Float => Throw BadCastException
  | Double => Throw BadCastException
  | Char => Throw BadCastException
  | StdString =>
      let oss : ostream := "" in
      o ← Ptr_deref (_val h);
      oss ← Object_stringify o oss 2 default_step;
      mret (as_string oss)
  | DateTime =>
      Throw (NotImplementedException "Conversion not implemented: JSON:Object => DateTime")
  | LocalDateTime =>
      Throw (NotImplementedException "Conversion not implemented: JSON:Object => LocalDateTime")
  | Timestamp =>
      Throw (NotImplementedException "Conversion not implemented: JSON:Object => Timestamp")
  end.
End Convert.

(** The targets of lines 281-339 other than [bool] and [std::string], and
    those of lines 348-364. *)
Definition numeric_and_char_targets : list target :=
  [Int8; Int16; Int32; Int64; UInt8; UInt16; UInt32; UInt64; Float; Double; Char].

Definition date_time_targets : list target :=
  [DateTime; LocalDateTime; Timestamp].

(** Lines 376-399. *)
Definition holder_isArray (h : VarHolderImpl) : bool := false.
Definition holder_isInteger (h : VarHolderImpl) : bool := false.
Definition holder_isSigned (h : VarHolderImpl) : bool := false.
Definition holder_isNumeric (h : VarHolderImpl) : bool := false.
Definition holder_isString (h : VarHolderImpl) : bool := false.

(** Modelled from the spec: [getKey] for an iterator of [_keys] (declared
    at line 190; the body is in [Object.cpp]): the order sequence holds
    "references into [values] entries", so the key is that of the entry the
    reference points into. *)
Definition getKey_KeyPtr (o : Object) (it : addr) : option string :=
  match entries_at o it with
  | [e] => Some e.1
  | _ => None
  end.

(** Modelled from the spec: [Object::stringify] (declared at line 145; the
    body is in [Object.cpp]): "entry iteration order is exactly the active
    Key Index order (sorted or insertion)", so [doStringify] runs over
    [_values] in sorted mode and over [_keys] in insertion-order mode; the
    step, "default derived from caller", is the indent when the caller
    leaves it at [-1].  In insertion-order mode every reference is read
    through, which has no defined result once one of them dangles. *)
Definition stringify (o : Object) (out : ostream) (indent step : Z) : outcome ostream :=
  let step := if decide (step = default_step) then indent else step in
  if _preserveInsOrder o then
    if decide (keys_valid o) then
      Return (doStringify (λ it, default "" (getKey_KeyPtr o it))
                          (λ it, default VEmpty (getValue_KeyPtr o it))
                          scalar_stringify (_keys o) out indent step)
    else Throw InvalidAccess
  else Return (doStringify_ValueMap scalar_stringify o out indent step).

(** Modelled from the spec: the constructor and [set] (declared at lines 65
    and 142; the bodies are in [Object.cpp]): an object is "created empty",
    and [set] is "insert-or-overwrite.  If key is new and insertion-order
    mode is active, append a reference to the order sequence; if key already
    existed, overwrite value in place without touching order".  [fresh] is
    the address the allocator gives to the node of a new key. *)
Definition Object_new (preserveInsertionOrder : bool) : Object :=
  mkObject ∅ [] preserveInsertionOrder.

Definition Object_set (fresh : addr) (o : Object) (key : string) (value : Var) : Object :=
  match _values o !! key with
  | Some it =>
      {| _values := <[key := Node (node_addr it) value]> (_values o);
         _keys := _keys o;
         _preserveInsOrder := _preserveInsOrder o |}
  | None =>
      {| _values := <[key := Node fresh value]> (_values o);
         _keys := if _preserveInsOrder o then _keys o ++ [fresh] else _keys o;
         _preserveInsOrder := _preserveInsOrder o |}
  end.

(** ** Sample objects *)

Definition empty_object : Object := mkObject ∅ [] false.

(** [{"a":1}], sorted mode. *)
Definition object_a : Object :=
  mkObject {[ "a" := Node 1%positive (VInt 1) ]} [] false.

(** [{"a":1,"b":"x"}], sorted mode. *)
Definition object_ab : Object :=
  mkObject (<[ "b" := Node 2%positive (VString "x") ]> {[ "a" := Node 1%positive (VInt 1) ]}) [] false.

(** [{"a":1}] in insertion-order mode: the order sequence refers to the
    node of ["a"]. *)
Definition ordered_a : Object :=
  mkObject {[ "a" := Node 1%positive (VInt 1) ]} [1%positive] true.

(** [{"n":null,"s":"x","i":7}], sorted mode. *)
Definition object_nsi : Object :=
  mkObject (<[ "i" := Node 3%positive (VInt 7) ]>
            (<[ "s" := Node 2%positive (VString "x") ]> {[ "n" := Node 1%positive VEmpty ]})) [] false.

(** Modelled from the spec: [Var::convert<int>] ([Poco/Dynamic/Var.h] is not
    part of the header): an integer converts to itself, a boolean to 0 or
    1, a string when it spells a decimal number ("present-string-not-numeric"
    is a conversion failure); an empty value and a container handle do not
    convert.  Range checks are left out. *)
Definition convert_int (v : Var) : outcome Z :=
  match v with
  | VEmpty => Throw BadCastException
  | VBool b => Return (if b then 1 else 0)%Z
  | VInt z => Return z
  | VString s =>
      match s, NilZero.int_of_string s with
      | String _ _, Some d => Return (Z.of_int d)
      | _, _ => Throw BadCastException
      end
  | VArray _ => Throw BadCastException
  | VObject _ => Throw BadCastException
  end.

(** ** getValue (lines 90-100) *)

(** Modelled from the spec: [get] (declared at line 76; the body is in
    [Object.cpp]): "returns the stored value, or an explicitly-empty value
    if key absent", which is also what its comment in the header says
    ("An empty value is returned when the property doesn't exist"). *)
Definition get (o : Object) (key : string) : Var :=
  match _values o !! key with
  | Some it => second it
  | None => VEmpty
  end.

Section GetValue.
Context {T : Type} (convert : Var → outcome T).

Definition getValue (o : Object) (key : string) : outcome T :=
  let value := get o key in
  convert value.
End GetValue.

(** ** The indented form

    What [doStringify] writes when both [indent] and [step] are positive,
    written out entry by entry: every entry on a line of its own behind
    [indent] blanks, the lines joined by a comma. *)
Section PrettyText.
Context {It : Type}.
Variable getKey : It → string.
Variable getValue : It → Var.
Variable Stringifier_stringify : Var → Z → Z → string.

Definition pretty_entry (indent step : Z) (it : It) : string :=
  blanks (Z.to_nat indent) +:+ dquote +:+ getKey it +:+ dquote +:+ " : " +:+
  Stringifier_stringify (getValue it) (indent + step)%Z step.

Definition pretty_text (container : list It) (indent step : Z) : string :=
  "{" +:+ endl +:+
  String.concat ("," +:+ endl) (pretty_entry indent step <$> container) +:+
  (if container is [] then "" else endl) +:+
  blanks (Z.to_nat (if decide (step ≤ indent)%Z then (indent - step)%Z else indent)) +:+
  "}".
End PrettyText.

(** [{"a":1,"b":"x"}] in insertion-order mode, ["b"] set first. *)
Definition ordered_ba : Object :=
  mkObject (<[ "a" := Node 2%positive (VInt 1) ]> {[ "b" := Node 1%positive (VString "x") ]})
           [1%positive; 2%positive] true.

(** * Properties *)

(** ** Text *)

Lemma app_cons a (s t : string) : String a s +:+ t = String a (s +:+ t).
Proof. reflexivity. Qed.

Lemma app_nil_l (s : string) : "" +:+ s = s.
Proof. reflexivity. Qed.

Lemma app_nil_r (s : string) : s +:+ "" = s.
Proof. induction s as [|a s IH]; [done|]. by rewrite app_cons, IH. Qed.

Lemma app_assoc (s t u : string) : (s +:+ t) +:+ u = s +:+ (t +:+ u).
Proof. induction s as [|a s IH]; [done|]. by rewrite !app_cons, IH. Qed.

Lemma occurs_app c (s t : string) : occurs c (s +:+ t) = occurs c s || occurs c t.
Proof.
  induction s as [|a s IH]; [done|].
  rewrite app_cons. simpl. rewrite IH. by rewrite orb_assoc.
Qed.

Lemma occurs_blanks c n : c ≠ " "%char → occurs c (blanks n) = false.
Proof.
  intros Hc. induction n as [|n IH]; [done|].
  simpl. rewrite IH, orb_false_r. apply bool_decide_eq_false. congruence.
Qed.

Lemma put_spaces_blanks n out : put_spaces n out = out +:+ blanks n.
Proof.
  revert out. induction n as [|n IH]; intros out; simpl.
  - by rewrite app_nil_r.
  - rewrite IH. unfold put, blank. by rewrite app_assoc.
Qed.

(** ** Object accessors *)

(** C7: [isNull(k)] is true exactly when [k] is absent from the value store
    or the value stored under [k] is empty. *)
Theorem isNull_iff_absent_or_empty (o : Object) (key : string) :
  isNull o key = true ↔
  _values o !! key = None ∨
  ∃ it, _values o !! key = Some it ∧ isEmpty (second it) = true.
Proof.
  unfold isNull. destruct (_values o !! key) as [it|] eqn:Hfind.
  - split.
    + intros Hempty. right. by exists it.
    + intros [Habs | (it' & Hit & Hempty)]; [discriminate|]. by simplify_eq.
  - split; [by left | done].
Qed.

Lemma has_false_isNull (o : Object) (key : string) :
  has o key = false → isNull o key = true.
Proof. unfold has, isNull. by destruct (_values o !! key). Qed.

(** C8: [optValue<T>(k, def)] returns [def] when [k] is absent, when the
    stored value is empty and when the conversion throws; otherwise it
    returns the converted value; it never throws. *)
Theorem optValue_default_or_converted {T} (convert : Var → outcome T)
    (o : Object) (key : string) (def : T) :
  (_values o !! key = None → optValue convert o key def = Return def) ∧
  (∀ it, _values o !! key = Some it → isEmpty (second it) = true →
     optValue convert o key def = Return def) ∧
  (∀ it e, _values o !! key = Some it → isEmpty (second it) = false →
     convert (second it) = Throw e → optValue convert o key def = Return def) ∧
  (∀ it x, _values o !! key = Some it → isEmpty (second it) = false →
     convert (second it) = Return x → optValue convert o key def = Return x) ∧
  (∃ x, optValue convert o key def = Return x).
Proof.
  unfold optValue. repeat split.
  - by intros ->.
  - by intros it -> ->.
  - by intros it e -> -> ->.
  - by intros it x -> -> ->.
  - destruct (_values o !! key) as [it|]; [|by eexists].
    destruct (isEmpty (second it)); simpl; [by eexists|].
    destruct (convert (second it)); by eexists.
Qed.

Lemma optValue_witness :
  optValue convert_int object_nsi "missing" 42%Z = Return 42%Z ∧
  optValue convert_int object_nsi "n" 42%Z = Return 42%Z ∧
  optValue convert_int object_nsi "s" 42%Z = Return 42%Z ∧
  optValue convert_int object_nsi "i" 42%Z = Return 7%Z.
Proof.
  split; [|split; [|split]].
  - destruct (optValue_default_or_converted convert_int object_nsi "missing" 42%Z)
      as (Habsent & _).
    apply Habsent. reflexivity.
  - destruct (optValue_default_or_converted convert_int object_nsi "n" 42%Z)
      as (_ & Hempty & _).
    apply (Hempty (Node 1%positive VEmpty)); reflexivity.
  - destruct (optValue_default_or_converted convert_int object_nsi "s" 42%Z)
      as (_ & _ & Hthrow & _).
    apply (Hthrow (Node 2%positive (VString "x")) BadCastException); reflexivity.
  - destruct (optValue_default_or_converted convert_int object_nsi "i" 42%Z)
      as (_ & _ & _ & Hconv & _).
    apply (Hconv (Node 3%positive (VInt 7))); reflexivity.
Defined.

(** ** Conversions of a holder *)

Section ConvertFacts.
Variable Object_stringify : Object → ostream → Z → Z → outcome ostream.

Lemma convert_Bool_eq (h : VarHolderImpl) :
  convert Object_stringify h Bool =
  Return (as_bool (match _val h with
                   | Some o => bool_decide (0 < Object_size o)
                   | None => false
                   end)).
Proof. unfold convert. by destruct (_val h). Qed.
End ConvertFacts.

(** C4: converting a holder of an object handle to [bool] succeeds, and the
    result is [true] exactly when the handle is non-null and the object's
    [size()] is positive; an empty object gives [false]. *)
Theorem convert_bool_true_iff
    (Object_stringify : Object → ostream → Z → Z → outcome ostream) (h : VarHolderImpl) :
  ∃ b, convert Object_stringify h Bool = Return (as_bool b) ∧
       (b = true ↔ ∃ o, _val h = Some o ∧ 0 < Object_size o) ∧
       (∀ o, _val h = Some o → Object_size o = 0 → b = false).
Proof.
  rewrite convert_Bool_eq. eexists. split; [reflexivity|]. split.
  - destruct (_val h) as [o|].
    + rewrite bool_decide_eq_true. split.
      * intros Hpos. by exists o.
      * intros (o' & Ho' & Hpos). by simplify_eq.
    + split; [done|]. by intros (o' & Ho' & _).
  - intros o -> Hsize. apply bool_decide_eq_false. lia.
Qed.

Lemma convert_bool_witness :
  convert stringify (Holder (Some empty_object)) Bool = Return (as_bool false) ∧
  convert stringify (Holder (Some object_a)) Bool = Return (as_bool true).
Proof.
  split.
  - destruct (convert_bool_true_iff stringify (Holder (Some empty_object)))
      as (b & Hconv & _ & Hempty).
    rewrite Hconv. f_equal. f_equal. apply (Hempty empty_object); reflexivity.
  - destruct (convert_bool_true_iff stringify (Holder (Some object_a)))
      as (b & Hconv & Htrue & _).
    rewrite Hconv. f_equal. f_equal. apply Htrue. exists object_a.
    split; [reflexivity|]. vm_compute. lia.
Defined.

(** C10: with a null handle the conversion to [bool] returns [false]; the
    null test guards the call of [size()], so the conversion returns for
    every state of the holder. *)
Theorem convert_bool_null_handle
    (Object_stringify : Object → ostream → Z → Z → outcome ostream) :
  convert Object_stringify (Holder None) Bool = Return (as_bool false) ∧
  ∀ h, returns (convert Object_stringify h Bool) = true.
Proof.
  split; [reflexivity|]. intros h. by rewrite convert_Bool_eq.
Qed.


(** C5: conversion to every signed or unsigned integer kind, to [float],
    [double] and [char] throws [BadCastException]; conversion to [DateTime],
    [LocalDateTime] and [Timestamp] throws [NotImplementedException], which
    is a different exception. *)
Theorem convert_numeric_bad_cast_date_not_implemented
    (Object_stringify : Object → ostream → Z → Z → outcome ostream) (h : VarHolderImpl) :
  Forall (λ t, convert Object_stringify h t = Throw BadCastException)
         numeric_and_char_targets ∧
  Forall (λ t, ∃ msg, convert Object_stringify h t = Throw (NotImplementedException msg) ∧
                      NotImplementedException msg ≠ BadCastException)
         date_time_targets.
Proof.
  split.
  - unfold numeric_and_char_targets. repeat constructor.
  - unfold date_time_targets. repeat constructor; by eexists.
Qed.

(** C6 as amended: for a holder whose handle refers to an object,
    conversion to [std::string] returns exactly the text that [stringify]
    with indent 2 (and the default step) writes to an empty stream, whenever
    that [stringify] returns; when it does not, neither does the
    conversion. *)
Theorem convert_string_is_stringify_2
    (Object_stringify : Object → ostream → Z → Z → outcome ostream)
    (h : VarHolderImpl) (o : Object) :
  _val h = Some o →
  convert Object_stringify h StdString =
  match Object_stringify o "" 2%Z default_step with
  | Return text => Return (as_string text)
  | Throw e => Throw e
  end.
Proof.
  intros Hval. unfold convert. rewrite Hval. simpl.
  by destruct (Object_stringify o "" 2%Z default_step).
Qed.

Lemma convert_string_witness :
  convert stringify (Holder (Some object_a)) StdString =
    Return (as_string ("{" +:+ endl +:+ "  " +:+ dquote +:+ "a" +:+ dquote +:+ " : 1"
                       +:+ endl +:+ "}")) ∧
  convert stringify (Holder (Some ordered_ba)) StdString =
    Return (as_string ("{" +:+ endl +:+
                       "  " +:+ dquote +:+ "b" +:+ dquote +:+ " : " +:+
                       dquote +:+ "x" +:+ dquote +:+ "," +:+ endl +:+
                       "  " +:+ dquote +:+ "a" +:+ dquote +:+ " : 1" +:+ endl +:+ "}")).
Proof.
  split.
  - rewrite (convert_string_is_stringify_2 stringify
               (Holder (Some object_a)) object_a); reflexivity.
  - rewrite (convert_string_is_stringify_2 stringify
               (Holder (Some ordered_ba)) ordered_ba); reflexivity.
Defined.

(** With a null handle there is no object to print: [_val->] raises. *)
Lemma convert_string_null_handle
    (Object_stringify : Object → ostream → Z → Z → outcome ostream) :
  convert Object_stringify (Holder None) StdString = Throw NullPointerException.
Proof. reflexivity. Qed.

(** The claim of C6 taken for every holder fails: a holder with a null
    handle is a holder of an object handle, and its conversion to
    [std::string] does not return. *)
Lemma convert_string_null_handle_throws :
  convert stringify (Holder None) StdString = Throw NullPointerException ∧
  returns (convert stringify (Holder None) StdString) = false ∧
  convert stringify (Holder None) Bool = Return (as_bool false).
Proof. repeat split. Qed.

(** ** doStringify *)

(** Closes goals that only ask whether a number fits its C++ type. *)
Ltac in_range :=
  unfold is_int, is_uint, INT_MIN, INT_MAX, UINT_MODULUS in *; lia.

Lemma to_unsigned_small (z : Z) : is_uint z → to_unsigned z = z.
Proof. unfold is_uint, to_unsigned. intros Hz. by apply Z.mod_small. Qed.

Lemma to_unsigned_negative (z : Z) :
  (INT_MIN ≤ z < 0)%Z → to_unsigned z = (z + UINT_MODULUS)%Z.
Proof.
  unfold to_unsigned, INT_MIN, UINT_MODULUS. intros Hz.
  symmetry. apply Z.mod_unique with (q := (-1)%Z); lia.
Qed.

(** Line 177 in plain arithmetic, for an indent that an [int] can hold. *)
Lemma closing_indent_cases (indent step : Z) :
  (0 ≤ indent ≤ INT_MAX)%Z → is_int step →
  closing_indent indent step =
  if decide (0 ≤ step ≤ indent)%Z then (indent - step)%Z else indent.
Proof.
  unfold closing_indent, is_int, INT_MAX, INT_MIN. intros Hindent Hstep.
  destruct (decide (0 ≤ step)%Z) as [Hpos|Hneg].
  - rewrite (to_unsigned_small step) by (unfold is_uint, UINT_MODULUS; lia).
    destruct (Z.leb_spec step indent); case_decide; try lia.
    apply to_unsigned_small. unfold is_uint, UINT_MODULUS. lia.
  - rewrite (to_unsigned_negative step) by (unfold INT_MIN; lia).
    unfold UINT_MODULUS.
    destruct (Z.leb_spec (step + 2 ^ 32) indent); case_decide; lia.
Qed.

Lemma closing_indent_zero (step : Z) : closing_indent 0 step = 0%Z.
Proof.
  unfold closing_indent.
  destruct (Z.leb_spec (to_unsigned step) 0) as [Hle|]; [|done].
  unfold to_unsigned, UINT_MODULUS in *.
  assert (step `mod` 2 ^ 32 = 0)%Z as Hmod
    by (pose proof (Z.mod_pos_bound step (2 ^ 32)); lia).
  rewrite Z.sub_0_l.
  apply Z.mod_divide in Hmod as [q ->]; [|lia].
  apply Z.mod_divide; [lia|]. exists (- q)%Z. lia.
Qed.

Section DoStringifyFacts.
Context {It : Type}.
Variable getKey : It → string.
Variable getValue : It → Var.
Variable Stringifier_stringify : Var → Z → Z → string.

Local Abbreviation put_entry := (put_entry getKey getValue Stringifier_stringify).
Local Abbreviation put_entries := (put_entries getKey getValue Stringifier_stringify).
Local Abbreviation doStringify := (doStringify getKey getValue Stringifier_stringify).
Local Abbreviation compact_entry := (compact_entry getKey getValue Stringifier_stringify).
Local Abbreviation compact_text := (compact_text getKey getValue Stringifier_stringify).


Lemma put_entry_compact it last out step :
  (step ≤ 0)%Z →
  put_entry it last out 0 step =
  out +:+ compact_entry step it +:+ (if last then "" else ",").
Proof.
  intros Hstep. unfold put_entry, compact_entry, put. simpl.
  replace (0 <? step)%Z with false by (symmetry; apply Z.ltb_ge; lia).
  destruct last; rewrite ?app_assoc, ?app_nil_r; done.
Qed.

Lemma put_entries_compact container out step :
  (step ≤ 0)%Z →
  put_entries container out 0 step =
  out +:+ String.concat "," (compact_entry step <$> container).
Proof.
  intros Hstep. revert out.
  induction container as [|it rest IH]; intros out; simpl.
  - by rewrite app_nil_r.
  - rewrite IH, put_entry_compact by done.
    destruct rest as [|it' rest]; simpl.
    + by rewrite !app_nil_r.
    + by rewrite !app_assoc.
Qed.

Lemma put_entry_broken it last out step :
  (0 < step)%Z →
  put_entry it last out 0 step =
  out +:+ compact_entry step it +:+ (if last then "" else ",") +:+ endl.
Proof.
  intros Hstep. unfold put_entry, compact_entry, put. simpl.
  replace (0 <? step)%Z with true by (symmetry; apply Z.ltb_lt; lia).
  destruct last; by rewrite ?app_assoc, ?app_nil_l.
Qed.

Lemma put_entries_broken container out step :
  (0 < step)%Z →
  put_entries container out 0 step =
  out +:+ String.concat ("," +:+ endl) (compact_entry step <$> container)
      +:+ (if container is [] then "" else endl).
Proof.
  intros Hstep. revert out.
  induction container as [|it rest IH]; intros out; simpl.
  - by rewrite app_nil_r.
  - rewrite IH, put_entry_broken by done.
    destruct rest as [|it' rest]; simpl.
    + by rewrite !app_assoc, !app_nil_l.
    + by rewrite !app_assoc.
Qed.

Lemma doStringify_compact_text container step :
  (step ≤ 0)%Z → doStringify container "" 0 step = compact_text container step.
Proof.
  intros Hstep. unfold doStringify, compact_text.
  rewrite closing_indent_zero. simpl.
  rewrite put_entries_compact by done.
  unfold put. by rewrite app_nil_l, app_assoc.
Qed.

Lemma occurs_concat_compact c container step :
  c ≠ "034"%char → c ≠ ":"%char → c ≠ ","%char →
  (∀ it, it ∈ container →
     occurs c (getKey it) = false ∧
     occurs c (Stringifier_stringify (getValue it) (to_unsigned step) step) = false) →
  occurs c (String.concat "," (compact_entry step <$> container)) = false.
Proof.
  intros Hq Hcolon Hcomma. induction container as [|it rest IH]; intros Hparts; [done|].
  assert (occurs c (compact_entry step it) = false) as Hit.
  { destruct (Hparts it) as [Hkey Hvalue]; [left|].
    unfold compact_entry. rewrite !occurs_app, Hkey, Hvalue. simpl.
    rewrite !bool_decide_eq_false_2; done. }
  assert (occurs c (String.concat "," (compact_entry step <$> rest)) = false) as Hrest.
  { apply IH. intros it' Hin. apply Hparts. by right. }
  destruct rest as [|it' rest]; [done|].
  change (occurs c (compact_entry step it +:+ "," +:+
            String.concat "," (compact_entry step <$> it' :: rest)) = false).
  rewrite !occurs_app, Hit, Hrest. simpl.
  rewrite bool_decide_eq_false_2; done.
Qed.
End DoStringifyFacts.

(** C2: for a container whose only entry is ["a"] with value 1 (written by
    the Stringifier as [1]), [doStringify] with indent 2 and step 2 writes
    an opening brace, a newline, two blanks, the quoted key, [ : ], the
    value, a newline, and the closing brace in column 0. *)
Theorem doStringify_single_property_indent_2 {It : Type}
    (getKey : It → string) (getValue : It → Var)
    (Stringifier_stringify : Var → Z → Z → string) (it : It) :
  getKey it = "a" →
  getValue it = VInt 1 →
  Stringifier_stringify (VInt 1) 4%Z 2%Z = "1" →
  doStringify getKey getValue Stringifier_stringify [it] "" 2%Z 2%Z =
  "{" +:+ endl +:+ "  " +:+ dquote +:+ "a" +:+ dquote +:+ " : " +:+ "1" +:+ endl +:+ "}".
Proof.
  intros Hkey Hvalue Hone.
  unfold doStringify, put_entries, put_entry. rewrite Hkey, Hvalue.
  change (to_unsigned (2 + 2)) with 4%Z. rewrite Hone. reflexivity.
Qed.

Lemma doStringify_single_property_witness :
  doStringify_ValueMap scalar_stringify object_a "" 2%Z 2%Z =
  "{" +:+ endl +:+ "  " +:+ dquote +:+ "a" +:+ dquote +:+ " : " +:+ "1" +:+ endl +:+ "}".
Proof.
  exact (doStringify_single_property_indent_2 getKey_ValueMap getValue_ValueMap
           scalar_stringify ("a", Node 1%positive (VInt 1)) eq_refl eq_refl eq_refl).
Defined.


(** X17: with indent 0 and a step that is not positive (the default [-1]
    included), [doStringify] writes the entries on one line, as
    ["key":value] joined by commas between the braces; a character that
    occurs in the output and in no key or value text is a brace, a quote, a
    colon or a comma, so there is no newline and no blank of its own. *)
Theorem doStringify_indent_0_single_line {It : Type}
    (getKey : It → string) (getValue : It → Var)
    (Stringifier_stringify : Var → Z → Z → string)
    (container : list It) (step : Z) :
  (step ≤ 0)%Z →
  doStringify getKey getValue Stringifier_stringify container "" 0%Z step =
    compact_text getKey getValue Stringifier_stringify container step ∧
  ∀ c, ¬ structural c →
    (∀ it, it ∈ container →
       occurs c (getKey it) = false ∧
       occurs c (Stringifier_stringify (getValue it) (to_unsigned step) step) = false) →
    occurs c (doStringify getKey getValue Stringifier_stringify container "" 0%Z step)
    = false.
Proof.
  intros Hstep. split; [by apply doStringify_compact_text|].
  intros c Hc Hparts. rewrite doStringify_compact_text by done.
  unfold compact_text, structural in *. rewrite !occurs_app.
  rewrite occurs_concat_compact by tauto. simpl.
  rewrite !bool_decide_eq_false_2; [done|intros <-; tauto..].
Qed.

Lemma doStringify_indent_0_witness :
  doStringify_ValueMap scalar_stringify object_ab "" 0%Z default_step =
    "{" +:+ dquote +:+ "a" +:+ dquote +:+ ":1," +:+
    dquote +:+ "b" +:+ dquote +:+ ":" +:+ dquote +:+ "x" +:+ dquote +:+ "}" ∧
  occurs "010" (doStringify_ValueMap scalar_stringify object_ab "" 0%Z default_step) = false ∧
  occurs " " (doStringify_ValueMap scalar_stringify object_ab "" 0%Z default_step) = false.
Proof.
  unfold default_step.
  destruct (doStringify_indent_0_single_line getKey_ValueMap getValue_ValueMap
              scalar_stringify (ValueMap_range (_values object_ab)) (-1)%Z)
    as [Htext Hchars]; [lia|].
  split; [exact Htext|].
  assert (∀ c, c = "010"%char ∨ c = " "%char →
            ∀ it, it ∈ ValueMap_range (_values object_ab) →
              occurs c (getKey_ValueMap it) = false ∧
              occurs c (scalar_stringify (getValue_ValueMap it) (to_unsigned (-1)) (-1)) = false)
    as Hparts.
  { intros c Hc it Hin. vm_compute in Hin.
    apply elem_of_cons in Hin as [->|Hin];
      [|apply elem_of_cons in Hin as [->|Hin]; [|by apply elem_of_nil in Hin]];
      destruct Hc as [-> | ->]; split; reflexivity. }
  split; apply Hchars; try (apply Hparts; auto);
    unfold structural; intros [?|[?|[?|[?|?]]]]; discriminate.
Defined.

(** C3 at indent 0 and step 2: the scalar object [{"a":1,"b":"x"}] is
    written over three lines, a newline after each entry, where the claim
    and the comment of [stringify] in the header (lines 146-147, "When
    indent is 0, the object will be printed on a single line") have one
    line: line 174 tests [step], lines 159 and 168 test [indent]. *)
Lemma doStringify_indent_0_step_2_breaks_lines :
  (∀ it, it ∈ ValueMap_range (_values object_ab) →
     is_scalar (getValue_ValueMap it) = true) ∧
  doStringify_ValueMap scalar_stringify object_ab "" 0%Z 2%Z =
    "{" +:+ dquote +:+ "a" +:+ dquote +:+ ":1," +:+ endl +:+
    dquote +:+ "b" +:+ dquote +:+ ":" +:+ dquote +:+ "x" +:+ dquote +:+ endl +:+ "}" ∧
  occurs "010" (doStringify_ValueMap scalar_stringify object_ab "" 0%Z 2%Z) = true.
Proof.
  split; [|split; reflexivity].
  intros it Hin. vm_compute in Hin.
  apply elem_of_cons in Hin as [->|Hin]; [reflexivity|].
  apply elem_of_cons in Hin as [->|Hin]; [reflexivity|].
  by apply elem_of_nil in Hin.
Qed.


(** X18: with indent 0 and a positive step every entry is followed by a
    newline, the last one too: the output is the compact entries joined by
    a comma and a newline, and for a container that is not empty it holds a
    newline, so it is not a single line. *)
Theorem doStringify_indent_0_positive_step {It : Type}
    (getKey : It → string) (getValue : It → Var)
    (Stringifier_stringify : Var → Z → Z → string)
    (container : list It) (step : Z) :
  (0 < step)%Z →
  doStringify getKey getValue Stringifier_stringify container "" 0%Z step =
    "{" +:+
    String.concat ("," +:+ endl)
      (compact_entry getKey getValue Stringifier_stringify step <$> container) +:+
    (if container is [] then "" else endl) +:+ "}" ∧
  (container ≠ [] →
   occurs "010" (doStringify getKey getValue Stringifier_stringify container "" 0%Z step)
   = true).
Proof.
  intros Hstep.
  assert (doStringify getKey getValue Stringifier_stringify container "" 0%Z step =
          "{" +:+
          String.concat ("," +:+ endl)
            (compact_entry getKey getValue Stringifier_stringify step <$> container) +:+
          (if container is [] then "" else endl) +:+ "}") as Htext.
  { unfold doStringify. rewrite closing_indent_zero. simpl.
    rewrite put_entries_broken by done. unfold put.
    by rewrite !app_assoc, !app_nil_l. }
  split; [done|]. intros Hne. rewrite Htext.
  destruct container as [|it rest]; [done|].
  rewrite !occurs_app. simpl. by rewrite !orb_true_r.
Qed.

Lemma doStringify_indent_0_positive_step_witness :
  doStringify_ValueMap scalar_stringify object_ab "" 0%Z 2%Z =
    "{" +:+ dquote +:+ "a" +:+ dquote +:+ ":1," +:+ endl +:+
    dquote +:+ "b" +:+ dquote +:+ ":" +:+ dquote +:+ "x" +:+ dquote +:+ endl +:+ "}" ∧
  occurs "010" (doStringify_ValueMap scalar_stringify object_ab "" 0%Z 2%Z) = true.
Proof.
  destruct (doStringify_indent_0_positive_step getKey_ValueMap getValue_ValueMap
              scalar_stringify (ValueMap_range (_values object_ab)) 2%Z)
    as [Htext Hnewline]; [lia|].
  split; [exact Htext|]. apply Hnewline. discriminate.
Defined.

(** C9 as amended: for a positive indent and a step that is not negative,
    what follows the entries is the closing brace after [indent - step]
    blanks when the step is at most the indent, and after [indent] blanks
    when the indent is smaller than the step: line 177 then skips the
    subtraction, it does not clamp to zero. *)
Theorem doStringify_closing_brace_indent {It : Type}
    (getKey : It → string) (getValue : It → Var)
    (Stringifier_stringify : Var → Z → Z → string)
    (container : list It) (out : ostream) (indent step : Z) :
  (0 < indent ≤ INT_MAX)%Z → (0 ≤ step ≤ INT_MAX)%Z →
  doStringify getKey getValue Stringifier_stringify container out indent step =
  put_entries getKey getValue Stringifier_stringify container
    (out << "{" << endl) indent step
  +:+ blanks (Z.to_nat (if decide (step ≤ indent)%Z
                        then (indent - step)%Z else indent))
  +:+ "}".
Proof.
  intros Hindent Hstep. unfold doStringify.
  rewrite closing_indent_cases by in_range.
  replace (0 <? indent)%Z with true by (symmetry; apply Z.ltb_lt; lia).
  rewrite put_spaces_blanks. unfold put. rewrite app_assoc.
  do 3 f_equal. repeat case_decide; (done || lia).
Qed.

Lemma doStringify_closing_brace_witness :
  doStringify_ValueMap scalar_stringify object_a "" 4%Z 2%Z =
    "{" +:+ endl +:+ "    " +:+ dquote +:+ "a" +:+ dquote +:+ " : 1" +:+ endl +:+
    "  " +:+ "}" ∧
  doStringify_ValueMap scalar_stringify object_a "" 2%Z 2%Z =
    "{" +:+ endl +:+ "  " +:+ dquote +:+ "a" +:+ dquote +:+ " : 1" +:+ endl +:+ "}" ∧
  doStringify_ValueMap scalar_stringify object_a "" 2%Z 4%Z =
    "{" +:+ endl +:+ "  " +:+ dquote +:+ "a" +:+ dquote +:+ " : 1" +:+ endl +:+
    "  " +:+ "}".
Proof.
  unfold doStringify_ValueMap. split; [|split].
  - rewrite (doStringify_closing_brace_indent getKey_ValueMap getValue_ValueMap
               scalar_stringify (ValueMap_range (_values object_a)) "" 4%Z 2%Z);
      [reflexivity | in_range | in_range].
  - rewrite (doStringify_closing_brace_indent getKey_ValueMap getValue_ValueMap
               scalar_stringify (ValueMap_range (_values object_a)) "" 2%Z 2%Z);
      [reflexivity | in_range | in_range].
  - rewrite (doStringify_closing_brace_indent getKey_ValueMap getValue_ValueMap
               scalar_stringify (ValueMap_range (_values object_a)) "" 2%Z 4%Z);
      [reflexivity | in_range | in_range].
Defined.

(** The claim of C9 fails when the indent is smaller than the step: with
    indent 2 and step 4 the closing brace of [{"a":1}] follows two blanks,
    where clamping would leave none. *)
Lemma doStringify_closing_brace_not_clamped :
  (0 < 2 < 4)%Z ∧
  clamped_closing_indent 2 4 = 0%Z ∧
  doStringify_ValueMap scalar_stringify object_a "" 2%Z 4%Z =
    "{" +:+ endl +:+ "  " +:+ dquote +:+ "a" +:+ dquote +:+ " : 1" +:+ endl +:+
    blanks 2 +:+ "}" ∧
  doStringify_ValueMap scalar_stringify object_a "" 2%Z 4%Z ≠
    "{" +:+ endl +:+ "  " +:+ dquote +:+ "a" +:+ dquote +:+ " : 1" +:+ endl +:+
    blanks (Z.to_nat (clamped_closing_indent 2 4)) +:+ "}".
Proof.
  split; [lia|]. split; [reflexivity|]. split; [reflexivity|].
  vm_compute. discriminate.
Qed.

(** ** remove *)

(** The insertion-order sample is what [set("a", 1)] makes of a new
    insertion-order object. *)
Lemma ordered_a_by_set :
  Object_set 1%positive (Object_new true) "a" (VInt 1) = ordered_a.
Proof. reflexivity. Qed.

Lemma remove_erases_value (o : Object) (key : string) :
  _values (remove o key) !! key = None ∧ has (remove o key) key = false.
Proof. unfold has, remove. simpl. by rewrite lookup_delete_eq. Qed.

Lemma remove_other_value (o : Object) (key key' : string) :
  key ≠ key' → _values (remove o key) !! key' = _values o !! key'.
Proof. intros Hne. unfold remove. simpl. by rewrite lookup_delete_ne. Qed.

Lemma remove_absent_noop (o : Object) (key : string) :
  has o key = false → remove o key = o.
Proof.
  unfold has, remove. destruct o as [values keys mode]. simpl.
  destruct (values !! key) eqn:Hfind; [done|]. intros _.
  by rewrite delete_id.
Qed.

Lemma remove_size_present (o : Object) (key : string) :
  has o key = true → S (Object_size (remove o key)) = Object_size o.
Proof.
  unfold has, remove, Object_size. simpl.
  destruct (_values o !! key) as [it|] eqn:Hfind; [|done]. intros _.
  rewrite <- (insert_delete_id (_values o) key it) at 2 by done.
  rewrite map_size_insert_None; [done|]. apply lookup_delete_eq.
Qed.

(** Lines 233-236 leave the order sequence as it was. *)
Lemma remove_keeps_keys (o : Object) (key : string) :
  _keys (remove o key) = _keys o.
Proof. reflexivity. Qed.

(** Once the node of [key] is erased, nothing lives at its address. *)
Lemma remove_kills_reference (o : Object) (key : string) (it : node) :
  _values o !! key = Some it →
  live o (node_addr it) →
  entries_at (remove o key) (node_addr it) = [].
Proof.
  unfold live, entries_at, remove. simpl. intros Hfind Hlive.
  pose proof (map_to_list_delete (_values o) key it Hfind) as Hperm.
  rewrite <- Hperm in Hlive.
  rewrite filter_cons_True in Hlive by done. simpl in Hlive.
  apply nil_length_inv. lia.
Qed.

(** Every insertion-order object whose order sequence refers to the node of
    a present key is left with a dangling reference by [remove]. *)
Lemma remove_breaks_keys_valid (o : Object) (key : string) (it : node) :
  _values o !! key = Some it →
  node_addr it ∈ _keys o →
  keys_valid o →
  ¬ keys_valid (remove o key).
Proof.
  unfold keys_valid. intros Hfind Hin Hvalid Hafter.
  rewrite Forall_forall in Hvalid, Hafter.
  specialize (Hvalid _ Hin). specialize (Hafter _ Hin).
  unfold live in Hafter.
  rewrite (remove_kills_reference o key it Hfind Hvalid) in Hafter.
  discriminate.
Qed.

(** C1 at [{"a":1}] in insertion-order mode: before [remove("a")] the
    single reference of the order sequence is live; afterwards the entry is
    gone from the value store, the order sequence still holds the reference,
    and the reference points to no entry. *)
Theorem remove_leaves_dangling_reference :
  _preserveInsOrder ordered_a = true ∧
  has ordered_a "a" = true ∧
  keys_valid ordered_a ∧
  _values (remove ordered_a "a") = ∅ ∧
  _keys (remove ordered_a "a") = [1%positive] ∧
  getValue_KeyPtr (remove ordered_a "a") 1%positive = None ∧
  ¬ keys_valid (remove ordered_a "a").
Proof.
  assert (keys_valid ordered_a) as Hvalid.
  { unfold keys_valid, ordered_a. simpl. repeat constructor. }
  repeat split; try reflexivity; [done|].
  apply (remove_breaks_keys_valid ordered_a "a" (Node 1%positive (VInt 1)));
    [reflexivity | | done].
  simpl. by apply list_elem_of_singleton.
Qed.

(** * Further properties of the header *)

(** ** Accessors and remove *)

(** X1: a key that is not in the value store is reported absent by every
    accessor: [has], [isArray] and [isObject] are false, [isNull] is true,
    and [optValue] gives the default. *)
Theorem absent_key_accessors {T} (convert : Var → outcome T)
    (o : Object) (key : string) (def : T) :
  _values o !! key = None →
  has o key = false ∧ isArray o key = false ∧ isObject o key = false ∧
  isNull o key = true ∧ optValue convert o key def = Return def.
Proof.
  intros Hfind. unfold has, isArray, isObject, isNull, optValue.
  by rewrite Hfind.
Qed.

Lemma absent_key_accessors_witness :
  has object_nsi "missing" = false ∧ isArray object_nsi "missing" = false ∧
  isObject object_nsi "missing" = false ∧ isNull object_nsi "missing" = true ∧
  optValue convert_int object_nsi "missing" 42%Z = Return 42%Z.
Proof.
  apply (absent_key_accessors convert_int object_nsi "missing" 42%Z).
  reflexivity.
Defined.

(** X2: after [remove(key)] the key is absent for every accessor, whatever
    was stored under it before. *)
Theorem remove_then_accessors {T} (convert : Var → outcome T)
    (o : Object) (key : string) (def : T) :
  has (remove o key) key = false ∧ isArray (remove o key) key = false ∧
  isObject (remove o key) key = false ∧ isNull (remove o key) key = true ∧
  optValue convert (remove o key) key def = Return def.
Proof.
  unfold has, isArray, isObject, isNull, optValue, remove. simpl.
  by rewrite lookup_delete_eq.
Qed.

(** X3: [remove(key)] changes nothing for any other key: all accessors
    answer for it as before. *)
Theorem remove_other_key_accessors {T} (convert : Var → outcome T)
    (o : Object) (key key' : string) (def : T) :
  key ≠ key' →
  has (remove o key) key' = has o key' ∧
  isArray (remove o key) key' = isArray o key' ∧
  isObject (remove o key) key' = isObject o key' ∧
  isNull (remove o key) key' = isNull o key' ∧
  optValue convert (remove o key) key' def = optValue convert o key' def.
Proof.
  intros Hne. unfold has, isArray, isObject, isNull, optValue, remove. simpl.
  by rewrite lookup_delete_ne.
Qed.

Lemma remove_other_key_witness :
  has (remove object_nsi "s") "i" = true ∧
  isNull (remove object_nsi "s") "n" = true ∧
  optValue convert_int (remove object_nsi "s") "i" 42%Z = Return 7%Z.
Proof.
  split; [|split].
  - destruct (remove_other_key_accessors convert_int object_nsi "s" "i" 42%Z)
      as (Hhas & _); [discriminate|].
    rewrite Hhas. reflexivity.
  - destruct (remove_other_key_accessors convert_int object_nsi "s" "n" 42%Z)
      as (_ & _ & _ & Hnull & _); [discriminate|].
    rewrite Hnull. reflexivity.
  - destruct (remove_other_key_accessors convert_int object_nsi "s" "i" 42%Z)
      as (_ & _ & _ & _ & Hopt); [discriminate|].
    rewrite Hopt. reflexivity.
Defined.

(** X4: [remove] lowers [size()] by exactly one when the key is present and
    leaves the whole object as it is when the key is absent. *)
Theorem remove_size (o : Object) (key : string) :
  (has o key = true → S (Object_size (remove o key)) = Object_size o) ∧
  (has o key = false → remove o key = o).
Proof.
  split.
  - apply remove_size_present.
  - apply remove_absent_noop.
Qed.

Lemma remove_size_witness :
  Object_size (remove object_nsi "s") = 2 ∧ remove object_nsi "missing" = object_nsi.
Proof.
  destruct (remove_size object_nsi "s") as [Hpresent _].
  destruct (remove_size object_nsi "missing") as [_ Habsent].
  split.
  - apply (Nat.succ_inj _ 2). exact (Hpresent eq_refl).
  - apply Habsent. reflexivity.
Defined.

(** X5: removing a key twice is the same as removing it once, and two
    removals give the same object in either order. *)
Theorem remove_idempotent_commutes (o : Object) (key key' : string) :
  remove (remove o key) key = remove o key ∧
  remove (remove o key) key' = remove (remove o key') key.
Proof.
  unfold remove. simpl. split; f_equal.
  - apply delete_delete_eq.
  - apply delete_delete.
Qed.

(** A reference that does not point at the erased node sees the same
    entries before and after [remove]. *)
Lemma entries_at_remove_other (o : Object) (key : string) (p : addr) :
  (∀ it, _values o !! key = Some it → node_addr it ≠ p) →
  live o p →
  entries_at (remove o key) p = entries_at o p.
Proof.
  unfold live, entries_at, remove. simpl. intros Hother Hlive.
  destruct (_values o !! key) as [it|] eqn:Hfind; [|by rewrite delete_id].
  pose proof (map_to_list_delete (_values o) key it Hfind) as Hperm.
  destruct (filter (λ e, node_addr e.2 = p) (map_to_list (_values o)))
    as [|e [|e' rest]] eqn:Hentries; try discriminate.
  assert (filter (λ e : string * node, node_addr e.2 = p)
            ((key, it) :: map_to_list (delete key (_values o))) ≡ₚ [e]) as Hfiltered.
  { rewrite Hperm. by rewrite Hentries. }
  rewrite filter_cons_False in Hfiltered by (simpl; by apply Hother).
  by apply Permutation_singleton_r in Hfiltered.
Qed.

(** X6: [remove(key)] does not disturb the references to other nodes: a
    live reference that is not the one of [key] stays live and still
    dereferences to the same value. *)
Theorem remove_keeps_other_references (o : Object) (key : string) (p : addr) :
  (∀ it, _values o !! key = Some it → node_addr it ≠ p) →
  live o p →
  live (remove o key) p ∧
  getValue_KeyPtr (remove o key) p = getValue_KeyPtr o p.
Proof.
  intros Hother Hlive. unfold live, getValue_KeyPtr.
  by rewrite entries_at_remove_other.
Qed.

Lemma remove_keeps_other_references_witness :
  live (remove ordered_ba "a") 1%positive ∧
  getValue_KeyPtr (remove ordered_ba "a") 1%positive = Some (VString "x").
Proof.
  destruct (remove_keeps_other_references ordered_ba "a" 1%positive) as [Hlive Hderef].
  - intros it Hfind. vm_compute in Hfind. injection Hfind as <-. discriminate.
  - reflexivity.
  - split; [exact Hlive|]. rewrite Hderef. reflexivity.
Defined.

(** X7: in an object whose order sequence refers to the node of a present
    key, [remove] of that key leaves a reference in [_keys] that points to
    no entry: the order sequence is not updated. *)
Theorem remove_order_sequence_not_updated (o : Object) (key : string) (it : node) :
  _values o !! key = Some it →
  node_addr it ∈ _keys o →
  keys_valid o →
  node_addr it ∈ _keys (remove o key) ∧
  getValue_KeyPtr (remove o key) (node_addr it) = None ∧
  ¬ keys_valid (remove o key).
Proof.
  intros Hfind Hin Hvalid. split; [done|]. split.
  - unfold getValue_KeyPtr. rewrite (remove_kills_reference o key it); [done..|].
    unfold keys_valid in Hvalid. rewrite Forall_forall in Hvalid. by apply Hvalid.
  - by apply (remove_breaks_keys_valid o key it).
Qed.

Lemma remove_order_sequence_not_updated_witness :
  2%positive ∈ _keys (remove ordered_ba "a") ∧
  getValue_KeyPtr (remove ordered_ba "a") 2%positive = None ∧
  ¬ keys_valid (remove ordered_ba "a").
Proof.
  apply (remove_order_sequence_not_updated ordered_ba "a" (Node 2%positive (VInt 1))).
  - reflexivity.
  - simpl. repeat constructor.
  - unfold keys_valid, ordered_ba. simpl. repeat constructor.
Defined.

(** [size()] is positive exactly when some key is present. *)
Lemma size_positive_iff_has (o : Object) :
  0 < Object_size o ↔ ∃ key, has o key = true.
Proof.
  unfold Object_size, has. split.
  - intros Hpos.
    destruct (map_choose (_values o)) as (key & it & Hfind).
    { apply map_size_non_empty_iff. lia. }
    exists key. by rewrite Hfind.
  - intros (key & Hhas).
    destruct (_values o !! key) as [it|] eqn:Hfind; [|done].
    assert (size (_values o) ≠ 0); [|lia].
    apply map_size_non_empty_iff. intros Hempty.
    rewrite Hempty, lookup_empty in Hfind. done.
Qed.

(** ** The optional and the converting getter *)

(** X8: whatever [optValue] returns is the default or the conversion of the
    non-empty value stored under the key; it never makes up a third value. *)
Theorem optValue_result_origin {T} (convert : Var → outcome T)
    (o : Object) (key : string) (def x : T) :
  optValue convert o key def = Return x →
  x = def ∨
  ∃ it, _values o !! key = Some it ∧ isEmpty (second it) = false ∧
        convert (second it) = Return x.
Proof.
  unfold optValue. destruct (_values o !! key) as [it|] eqn:Hfind.
  - destruct (isEmpty (second it)) eqn:Hempty; simpl.
    + intros [= <-]. by left.
    + destruct (convert (second it)) as [y|e] eqn:Hconv; simpl.
      * intros [= <-]. right. by exists it.
      * intros [= <-]. by left.
  - intros [= <-]. by left.
Qed.

Lemma optValue_result_origin_witness :
  7%Z = 42%Z ∨
  ∃ it, _values object_nsi !! "i" = Some it ∧ isEmpty (second it) = false ∧
        convert_int (second it) = Return 7%Z.
Proof.
  apply (optValue_result_origin convert_int object_nsi "i" 42%Z 7%Z). reflexivity.
Defined.

(** X9: [optValue] is [getValue] with a fallback: when [isNull] holds for
    the key (absent, or an empty value) it returns the default without
    converting; otherwise it returns what [getValue] returns, and the
    default when [getValue] throws. *)
Theorem optValue_follows_getValue {T} (convert : Var → outcome T)
    (o : Object) (key : string) (def : T) :
  optValue convert o key def =
  if isNull o key then Return def
  else match getValue convert o key with
       | Return x => Return x
       | Throw _ => Return def
       end.
Proof.
  unfold isNull, optValue, getValue, get.
  destruct (_values o !! key) as [it|]; [|done].
  destruct (isEmpty (second it)); simpl; [done|].
  by destruct (convert (second it)).
Qed.

Lemma optValue_follows_getValue_witness :
  optValue convert_int object_nsi "i" 42%Z = Return 7%Z ∧
  getValue convert_int object_nsi "s" = Throw BadCastException ∧
  optValue convert_int object_nsi "s" 42%Z = Return 42%Z.
Proof.
  split; [|split].
  - rewrite (optValue_follows_getValue convert_int object_nsi "i" 42%Z); reflexivity.
  - reflexivity.
  - rewrite (optValue_follows_getValue convert_int object_nsi "s" 42%Z); reflexivity.
Defined.

(** ** The holder *)

(** X10: a holder converts only to [bool] and to [std::string]: the
    conversion to [bool] always returns, the conversion to [std::string]
    returns exactly when the handle is not null and [stringify] with indent
    2 returns for the object, and every other target throws. *)
Theorem convert_returns_iff
    (Object_stringify : Object → ostream → Z → Z → outcome ostream)
    (h : VarHolderImpl) (t : target) :
  returns (convert Object_stringify h t) = true ↔
  t = Bool ∨
  (t = StdString ∧
   ∃ o, _val h = Some o ∧ returns (Object_stringify o "" 2%Z default_step) = true).
Proof.
  destruct t; try (simpl; split; [done | by intros [? | [? _]]]).
  - rewrite convert_Bool_eq. simpl. split; [by left | done].
  - unfold convert. destruct (_val h) as [o|]; simpl.
    + destruct (Object_stringify o "" 2%Z default_step) as [text|e] eqn:Hwritten; simpl.
      * split; [|done]. intros _. right. split; [done|]. exists o. by rewrite Hwritten.
      * split; [done|]. intros [? | (_ & o' & [= <-] & Hret)]; [done|].
        by rewrite Hwritten in Hret.
    + split; [done|]. by intros [? | (_ & o' & ? & _)].
Qed.

Lemma convert_returns_iff_witness :
  returns (convert stringify (Holder (Some ordered_ba)) StdString) = true ∧
  returns (convert stringify (Holder (Some (remove ordered_a "a"))) StdString) = false.
Proof.
  split.
  - apply (convert_returns_iff stringify (Holder (Some ordered_ba)) StdString).
    right. split; [reflexivity|]. exists ordered_ba. split; reflexivity.
  - apply not_true_is_false. intros Hret.
    apply (convert_returns_iff stringify (Holder (Some (remove ordered_a "a"))) StdString)
      in Hret as [Hbool | (_ & o & [= <-] & Hwritten)]; discriminate.
Defined.

(** X11: the conversion of a non-null handle to [bool] gives [true] exactly
    when the object has some key, i.e. when [has] holds for at least one
    key. *)
Theorem convert_bool_true_iff_some_key
    (Object_stringify : Object → ostream → Z → Z → outcome ostream) (o : Object) :
  convert Object_stringify (Holder (Some o)) Bool = Return (as_bool true) ↔
  ∃ key, has o key = true.
Proof.
  rewrite convert_Bool_eq. simpl. rewrite <- size_positive_iff_has. split.
  - intros [= Hpos]. by apply bool_decide_eq_true in Hpos.
  - intros Hpos. do 2 f_equal. by apply bool_decide_eq_true.
Qed.

(** ** doStringify beyond the single-line form *)

Section DoStringifyShape.
Context {It : Type}.
Variable getKey : It → string.
Variable getValue : It → Var.
Variable Stringifier_stringify : Var → Z → Z → string.

Local Abbreviation put_entry := (put_entry getKey getValue Stringifier_stringify).
Local Abbreviation put_entries := (put_entries getKey getValue Stringifier_stringify).
Local Abbreviation doStringify := (doStringify getKey getValue Stringifier_stringify).
Local Abbreviation pretty_entry := (pretty_entry getKey getValue Stringifier_stringify).

Lemma put_entry_appends it last out indent step :
  put_entry it last out indent step = out +:+ put_entry it last "" indent step.
Proof.
  unfold put_entry, put. rewrite !put_spaces_blanks, app_nil_l.
  destruct last, (0 <? step)%Z; by rewrite ?app_assoc.
Qed.

Lemma put_entries_appends container out indent step :
  put_entries container out indent step =
  out +:+ put_entries container "" indent step.
Proof.
  revert out. induction container as [|it rest IH]; intros out; simpl.
  - by rewrite app_nil_r.
  - rewrite IH, put_entry_appends.
    rewrite (IH (put_entry it _ "" indent step)). by rewrite app_assoc.
Qed.

Lemma put_entry_pretty it last out indent step :
  (0 < indent ≤ INT_MAX)%Z → (0 < step ≤ INT_MAX)%Z →
  put_entry it last out indent step =
  out +:+ pretty_entry indent step it +:+ (if last then "" else ",") +:+ endl.
Proof.
  intros Hindent Hstep. unfold put_entry, pretty_entry, put.
  rewrite put_spaces_blanks.
  rewrite to_unsigned_small by in_range.
  replace (0 <? indent)%Z with true by (symmetry; apply Z.ltb_lt; lia).
  replace (0 <? step)%Z with true by (symmetry; apply Z.ltb_lt; lia).
  destruct last; by rewrite ?app_assoc, ?app_nil_l.
Qed.

Lemma put_entries_pretty container out indent step :
  (0 < indent ≤ INT_MAX)%Z → (0 < step ≤ INT_MAX)%Z →
  put_entries container out indent step =
  out +:+ String.concat ("," +:+ endl) (pretty_entry indent step <$> container)
      +:+ (if container is [] then "" else endl).
Proof.
  intros Hindent Hstep. revert out.
  induction container as [|it rest IH]; intros out; simpl.
  - by rewrite app_nil_r.
  - rewrite IH, put_entry_pretty by done.
    destruct rest as [|it' rest]; simpl.
    + by rewrite !app_assoc, !app_nil_l.
    + by rewrite !app_assoc.
Qed.
End DoStringifyShape.

(** X12: [doStringify] only appends: what it writes is an opening brace, a
    body and a closing brace, and the body does not depend on what the
    stream held before. *)
Theorem doStringify_appends_braced_text {It : Type}
    (getKey : It → string) (getValue : It → Var)
    (Stringifier_stringify : Var → Z → Z → string)
    (container : list It) (indent step : Z) :
  ∃ body, ∀ out,
    doStringify getKey getValue Stringifier_stringify container out indent step =
    out +:+ "{" +:+ body +:+ "}".
Proof.
  exists ((if (0 <? indent)%Z then endl else "") +:+
          put_entries getKey getValue Stringifier_stringify container "" indent step +:+
          blanks (Z.to_nat (closing_indent indent step))).
  intros out. unfold doStringify.
  rewrite put_spaces_blanks, put_entries_appends. unfold put.
  destruct (0 <? indent)%Z; by rewrite ?app_assoc, ?app_nil_l.
Qed.

(** X13: an empty container is written as [{}] when the indent is 0,
    whatever the step, and as an opening brace, a newline and the closing
    brace in column 0 when indent and step are the same positive number. *)
Theorem doStringify_empty_container {It : Type}
    (getKey : It → string) (getValue : It → Var)
    (Stringifier_stringify : Var → Z → Z → string) :
  (∀ step, doStringify getKey getValue Stringifier_stringify [] "" 0%Z step = "{}") ∧
  (∀ indent, (0 < indent ≤ INT_MAX)%Z →
     doStringify getKey getValue Stringifier_stringify [] "" indent indent =
     "{" +:+ endl +:+ "}").
Proof.
  split.
  - intros step. unfold doStringify. simpl. by rewrite closing_indent_zero.
  - intros indent Hindent. unfold doStringify. simpl.
    rewrite closing_indent_cases by in_range.
    replace (0 <? indent)%Z with true by (symmetry; apply Z.ltb_lt; lia).
    rewrite decide_True by lia. by rewrite Z.sub_diag.
Qed.

Lemma doStringify_empty_container_witness :
  doStringify_ValueMap scalar_stringify empty_object "" 0%Z 2%Z = "{}" ∧
  doStringify_ValueMap scalar_stringify empty_object "" 2%Z 2%Z = "{" +:+ endl +:+ "}".
Proof.
  destruct (doStringify_empty_container getKey_ValueMap getValue_ValueMap scalar_stringify)
    as [Hcompact Hindented].
  split.
  - exact (Hcompact 2%Z).
  - apply (Hindented 2%Z). in_range.
Defined.

(** X14: with a positive indent and a positive step [doStringify] writes the
    indented form: a brace and a newline, every entry on its own line behind
    [indent] blanks with [ : ] between key and value, a comma at the end of
    every line but the last, and the closing brace behind [indent - step]
    blanks (behind [indent] blanks when the step is the larger); the values
    are written with indent [indent + step]. *)
Theorem doStringify_indented_text {It : Type}
    (getKey : It → string) (getValue : It → Var)
    (Stringifier_stringify : Var → Z → Z → string)
    (container : list It) (indent step : Z) :
  (0 < indent ≤ INT_MAX)%Z → (0 < step ≤ INT_MAX)%Z →
  doStringify getKey getValue Stringifier_stringify container "" indent step =
  pretty_text getKey getValue Stringifier_stringify container indent step.
Proof.
  intros Hindent Hstep. unfold doStringify, pretty_text.
  rewrite closing_indent_cases by in_range.
  replace (0 <? indent)%Z with true by (symmetry; apply Z.ltb_lt; lia).
  rewrite put_spaces_blanks, put_entries_pretty by done. unfold put.
  rewrite !app_assoc, !app_nil_l.
  do 4 f_equal. repeat case_decide; (done || lia).
Qed.

Lemma doStringify_indented_text_witness :
  doStringify_ValueMap scalar_stringify object_ab "" 2%Z 2%Z =
  "{" +:+ endl +:+
  "  " +:+ dquote +:+ "a" +:+ dquote +:+ " : 1," +:+ endl +:+
  "  " +:+ dquote +:+ "b" +:+ dquote +:+ " : " +:+ dquote +:+ "x" +:+ dquote +:+ endl +:+
  "}".
Proof.
  unfold doStringify_ValueMap.
  rewrite (doStringify_indented_text getKey_ValueMap getValue_ValueMap scalar_stringify
             (ValueMap_range (_values object_ab)) 2%Z 2%Z); [reflexivity | in_range..].
Defined.

(** ** Type predicates *)

(** X16: [isArray] and [isObject] never hold for the same key, and each of
    them holds only for a key that [has] reports present. *)
Theorem type_predicates_exclusive (o : Object) (key : string) :
  (isArray o key = true → isObject o key = false ∧ has o key = true) ∧
  (isObject o key = true → isArray o key = false ∧ has o key = true).
Proof.
  unfold isArray, isObject, has.
  destruct (_values o !! key) as [it|]; [|done].
  split; intros Htype%bool_decide_eq_true; rewrite Htype; done.
Qed.

Lemma type_predicates_exclusive_witness :
  isObject (mkObject {[ "list" := Node 1%positive (VArray 5%positive) ]} [] false) "list"
  = false.
Proof.
  apply (type_predicates_exclusive
           (mkObject {[ "list" := Node 1%positive (VArray 5%positive) ]} [] false) "list").
  reflexivity.
Defined.
